(** * check_dynamics: Newtonian, Hamiltonian and linear models of a two-axis rotor

    A shallow embedding of [sandbox/check_dynamics.py] and the properties its
    specification states about it.

    The script works on numpy arrays of float64.  The embedding is generic in
    the scalar type (class [Scalar]) and has two instances:
    - [float_scalar], IEEE binary64 (the kernel's primitive floats): the
      arithmetic the script really performs, with its rounding, overflow and
      underflow;
    - [R_scalar], exact real arithmetic, an instance of [exact_arithmetic],
      the idealisation in which the algebraic identities hold for all inputs.

    A 1-D array is a [list]; the failures numpy and the interpreter raise on
    ill-shaped arrays are values of [exn], and every function that can raise
    returns a [result].  The calls made to a dynamics function and the lines
    printed are kept in a [world] that the monad [M] threads through. *)

From Stdlib Require Import ZArith Reals Lia Lra Field String List.
From Stdlib Require Import Floats.PrimFloat Numbers.Cyclic.Int63.Uint63.
Import ListNotations.

Set Implicit Arguments.

(** ** Scalars *)

(** What the script needs of a number: the coercion of an integer literal,
    [+], [*] and [/]. *)
Class Scalar (T : Type) : Type := {
  fromZ : Z -> T;
  add : T -> T -> T;
  mul : T -> T -> T;
  div : T -> T -> T
}.

(** A decimal literal [n / d], such as [0.15 = dec 15 100]. *)
Definition dec {T} `{Scalar T} (n d : Z) : T := div (fromZ n) (fromZ d).

#[export] Instance R_scalar : Scalar R := {
  fromZ := IZR;
  add := Rplus;
  mul := Rmult;
  div := Rdiv
}.

Definition float_of_Z (z : Z) : float :=
  match z with
  | Z0 => PrimFloat.of_uint63 0
  | Zpos _ => PrimFloat.of_uint63 (Uint63.of_Z z)
  | Zneg p => PrimFloat.opp (PrimFloat.of_uint63 (Uint63.of_Z (Zpos p)))
  end.

#[export] Instance float_scalar : Scalar float := {
  fromZ := float_of_Z;
  add := PrimFloat.add;
  mul := PrimFloat.mul;
  div := PrimFloat.div
}.

(** ** Exceptions and results *)

Inductive exn : Type :=
| UnpackError (expected got : nat)
    (* ValueError: too many / not enough values to unpack *)
| BroadcastError (m n : nat)
    (* ValueError: operands could not be broadcast together *)
| MatmulError (cols n : nat)
    (* ValueError: matmul: mismatch in its core dimension *)
| UserError (tag : nat).
    (* any other exception a caller-supplied function raises *)

Inductive result (A : Type) : Type :=
| Ok (a : A)
| Raise (e : exn).

Arguments Ok {A} a.
Arguments Raise {A} e.

Section Model.

Context {T : Type} `{Scalar T}.

(** ** Arrays *)

Definition vec : Type := list T.
Definition mat : Type := list vec.

(** [c * v] for a scalar [c] and an array [v]. *)
Definition smul (c : T) (v : vec) : vec := map (mul c) v.

(** [v / c] for an array [v] and a scalar [c]. *)
Definition sdiv (v : vec) (c : T) : vec := map (fun x => div x c) v.

Fixpoint zip_add (a b : vec) : vec :=
  match a, b with
  | x :: a', y :: b' => add x y :: zip_add a' b'
  | _, _ => []
  end.

(** [a + b] on 1-D arrays, with numpy's broadcasting: equal lengths add
    elementwise, a one-element array is stretched, anything else raises. *)
Definition vadd (a b : vec) : result vec :=
  if Nat.eqb (length a) (length b) then Ok (zip_add a b)
  else match a, b with
       | [x], _ => Ok (map (add x) b)
       | _, [y] => Ok (map (fun x => add x y) a)
       | _, _ => Raise (BroadcastError (length a) (length b))
       end.

Definition dot (r x : vec) : T :=
  fold_left (fun acc p => add acc (mul (fst p) (snd p))) (combine r x) (fromZ 0).

(** [A @ x] for a 2-D array [A] and a 1-D array [x]. *)
Definition matvec (A : mat) (x : vec) : result vec :=
  match find (fun r => negb (Nat.eqb (length r) (length x))) A with
  | Some r => Raise (MatmulError (length r) (length x))
  | None => Ok (map (fun r => dot r x) A)
  end.

(** ** The world: calls made to dynamics functions, lines printed *)

Record call : Type := { arg_state : vec; arg_control : vec }.

Record line : Type := { label : option string; value : vec }.

Record world : Type := { calls : list call; stdout : list line }.

Definition empty_world : world := {| calls := []; stdout := [] |}.

Definition log_calls (w : world) (cs : list call) : world :=
  {| calls := calls w ++ cs; stdout := stdout w |}.

Definition log_lines (w : world) (ls : list line) : world :=
  {| calls := calls w; stdout := stdout w ++ ls |}.

Definition M (A : Type) : Type := world -> world * result A.

Definition ret {A} (a : A) : M A := fun w => (w, Ok a).

Definition bind {A B} (m : M A) (k : A -> M B) : M B :=
  fun w => match m w with
           | (w', Ok a) => k a w'
           | (w', Raise e) => (w', Raise e)
           end.

Definition lift {A} (r : result A) : M A := fun w => (w, r).

Definition dynamics : Type := vec -> vec -> result vec.

(** A call [f(state, control)]: it is recorded, then answers or raises. *)
Definition invoke (f : dynamics) (state control : vec) : M vec :=
  fun w => (log_calls w [{| arg_state := state; arg_control := control |}],
            f state control).

Definition print (l : line) : M unit :=
  fun w => (log_lines w [l], Ok tt).

End Model.

Arguments vec T : clear implicits.
Arguments mat T : clear implicits.
Arguments call T : clear implicits.
Arguments line T : clear implicits.
Arguments world T : clear implicits.
Arguments M T A : clear implicits.
Arguments dynamics T : clear implicits.

Declare Scope dyn_scope.
Delimit Scope dyn_scope with dyn.
Notation "x <- m ;; k" := (bind m (fun x => k))
  (at level 61, m at next level, right associativity) : dyn_scope.
Open Scope dyn_scope.

Section Program.

Context {T : Type} `{Scalar T}.

(** ** The program *)

Definition discretize_dynamics_rk4 (f : dynamics T) (dt : T)
  : vec T -> vec T -> T -> M T (vec T) :=
  let integrator := fun (state control : vec T) (dt : T) =>
    d1 <- invoke f state control ;;
    let k1 := smul dt d1 in
    x2 <- lift (vadd state (sdiv k1 (fromZ 2))) ;;
    d2 <- invoke f x2 control ;;
    let k2 := smul dt d2 in
    x3 <- lift (vadd state (sdiv k2 (fromZ 2))) ;;
    d3 <- invoke f x3 control ;;
    let k3 := smul dt d3 in
    x4 <- lift (vadd state k3) ;;
    d4 <- invoke f x4 control ;;
    let k4 := smul dt d4 in
    s1 <- lift (vadd k1 (smul (fromZ 2) k2)) ;;
    s2 <- lift (vadd s1 (smul (fromZ 2) k3)) ;;
    s3 <- lift (vadd s2 k4) ;;
    lift (vadd state (sdiv s3 (fromZ 6)))
  in integrator.

Definition newtonian_dynamics (state control : vec T) : result (vec T) :=
  let Ix := fromZ 2 in
  let Iy := Ix in
  match state with
  | [th1; th2; th1d; th2d] =>
      match control with
      | [T1; T2] => Ok [th1d; th2d; div T1 Ix; div T2 Iy]
      | _ => Raise (UnpackError 2 (length control))
      end
  | _ => Raise (UnpackError 4 (length state))
  end.

Definition hamiltonian_dynamics (state control : vec T) : result (vec T) :=
  let Ix := fromZ 2 in
  let Iy := Ix in
  match state with
  | [q1; q2; p1; p2] =>
      match control with
      | [T1; T2] => Ok [div p1 Ix; div p2 Iy; T1; T2]
      | _ => Raise (UnpackError 2 (length control))
      end
  | _ => Raise (UnpackError 4 (length state))
  end.

Definition linear_dynamics (dt : T) : mat T * mat T :=
  let Ix := fromZ 2 in
  let Iy := Ix in
  let A := [[fromZ 1; fromZ 0; dt; fromZ 0];
            [fromZ 0; fromZ 1; fromZ 0; dt];
            [fromZ 0; fromZ 0; fromZ 1; fromZ 0];
            [fromZ 0; fromZ 0; fromZ 0; fromZ 1]] in
  let B := [[fromZ 0; fromZ 0];
            [fromZ 0; fromZ 0];
            [div dt Ix; fromZ 0];
            [fromZ 0; div dt Iy]] in
  (A, B).

(** [for tt in range(n)] over a loop state [S]; the script's body ignores
    the index. *)
Fixpoint for_range {S : Type} (tts : list nat) (body : nat -> S -> M T S) (s : S)
  : M T S :=
  match tts with
  | [] => ret s
  | i :: rest => s' <- body i s ;; for_range rest body s'
  end.

Definition range (n : nat) : list nat := seq 0 n.

(** The [__main__] block. *)
Definition main : M T unit :=
  let Ix := fromZ 2 in
  let Iy := Ix in
  let dth1_0 := dec 15 100 in
  let dth2_0 := dec (-15) 100 in
  let p1_0 := mul dth1_0 Ix in
  let p2_0 := mul dth2_0 Iy in
  let dt := dec 1 1000 in
  let control := [dec 5 10; dec 5 10] in
  let n_x0 := [fromZ 0; fromZ 0; dth1_0; dth2_0] in
  let h_x0 := [fromZ 0; fromZ 0; p1_0; p2_0] in
  let L_x0 := [fromZ 0; fromZ 0; dth1_0; dth2_0] in
  _ <- print {| label := None; value := L_x0 |} ;;
  let ham_dyns := discretize_dynamics_rk4 hamiltonian_dynamics dt in
  let newt_dyns := discretize_dynamics_rk4 newtonian_dynamics dt in
  let '(A, B) := linear_dynamics dt in
  xs <- for_range (range 5)
          (fun _ '(h_x0, n_x0, L_x0) =>
             h_x0 <- ham_dyns h_x0 control dt ;;
             n_x0 <- newt_dyns n_x0 control dt ;;
             a <- lift (matvec A L_x0) ;;
             b <- lift (matvec B control) ;;
             L_x0 <- lift (vadd a b) ;;
             ret (h_x0, n_x0, L_x0))
          (h_x0, n_x0, L_x0) ;;
  let '(h_x0, n_x0, L_x0) := xs in
  _ <- print {| label := Some "Final Ham. State"%string; value := h_x0 |} ;;
  _ <- print {| label := Some "Final Newt State:"%string; value := n_x0 |} ;;
  print {| label := Some "Final Linear Newt State:"%string; value := L_x0 |}.

End Program.

(** ** Reading a run *)

Section Runs.

Context {T : Type} `{Scalar T}.

(** What a computation prints when started in the empty world. *)
Definition printed {A} (m : M T A) : list (line T) := stdout (fst (m empty_world)).

(** One RK4 step as the driver takes it: the integrator built for [dt] and
    called with [dt] takes [x] to [y], whatever the world, and calls [f]
    four times on the way. *)
Definition rk4_to (f : dynamics T) (dt : T) (control x y : vec T) : Prop :=
  exists cs, length cs = 4 /\
    forall w, discretize_dynamics_rk4 f dt x control dt w = (log_calls w cs, Ok y).

(** One step of the linear model: [y = A @ x + B @ control]. *)
Definition euler_to (dt : T) (control x y : vec T) : Prop :=
  exists a b,
    matvec (fst (linear_dynamics dt)) x = Ok a /\
    matvec (snd (linear_dynamics dt)) control = Ok b /\
    vadd a b = Ok y.

(** [steps R n x y]: [y] is reached from [x] in exactly [n] steps of [R]. *)
Inductive steps {X : Type} (R : X -> X -> Prop) : nat -> X -> X -> Prop :=
| steps_O : forall x, steps R 0 x x
| steps_S : forall n x y z, R x y -> steps R n y z -> steps R (S n) x z.

(** The body of the driver's loop, for the step size and control it uses. *)
Definition driver_body (dt : T) (control : vec T)
  : nat -> vec T * vec T * vec T -> M T (vec T * vec T * vec T) :=
  fun _ '(h_x0, n_x0, L_x0) =>
    h_x0 <- discretize_dynamics_rk4 hamiltonian_dynamics dt h_x0 control dt ;;
    n_x0 <- discretize_dynamics_rk4 newtonian_dynamics dt n_x0 control dt ;;
    a <- lift (matvec (fst (linear_dynamics dt)) L_x0) ;;
    b <- lift (matvec (snd (linear_dynamics dt)) control) ;;
    L_x0 <- lift (vadd a b) ;;
    ret (h_x0, n_x0, L_x0).

Definition mk_call (s c : vec T) : call T :=
  {| arg_state := s; arg_control := c |}.

(** The values the driver binds before its loop. *)
Definition driver_dt : T := dec 1 1000.
Definition driver_control : vec T := [dec 5 10; dec 5 10].
Definition driver_n_x0 : vec T := [fromZ 0; fromZ 0; dec 15 100; dec (-15) 100].
Definition driver_h_x0 : vec T :=
  [fromZ 0; fromZ 0; mul (dec 15 100) (fromZ 2); mul (dec (-15) 100) (fromZ 2)].
Definition driver_L_x0 : vec T := [fromZ 0; fromZ 0; dec 15 100; dec (-15) 100].

(** [n] steps taken one after the other, as a function: the state after
    [n] calls of the integrator built for [dt] and called with [dt], or the
    exception of the first step that raises. *)
Fixpoint advance (f : dynamics T) (dt : T) (control : vec T) (n : nat) (x : vec T)
  : result (vec T) :=
  match n with
  | O => Ok x
  | S k =>
      match snd (discretize_dynamics_rk4 f dt x control dt empty_world) with
      | Ok y => advance f dt control k y
      | Raise e => Raise e
      end
  end.

(** One step of the linear model as a function. *)
Definition euler_step (dt : T) (control x : vec T) : result (vec T) :=
  match matvec (fst (linear_dynamics dt)) x with
  | Ok a =>
      match matvec (snd (linear_dynamics dt)) control with
      | Ok b => vadd a b
      | Raise e => Raise e
      end
  | Raise e => Raise e
  end.

Fixpoint euler_advance (dt : T) (control : vec T) (n : nat) (x : vec T)
  : result (vec T) :=
  match n with
  | O => Ok x
  | S k =>
      match euler_step dt control x with
      | Ok y => euler_advance dt control k y
      | Raise e => Raise e
      end
  end.


(** The two rate components of a state. *)
Definition rates_of (r : result (vec T)) : option (T * T) :=
  match r with
  | Ok [_; _; th1d; th2d] => Some (th1d, th2d)
  | _ => None
  end.




(** Exact arithmetic: the operations of the scalar type are those of a
    field in which [2] and [6] are what they should be and are not zero.
    The reals are one; float64 is not. *)
Definition exact_arithmetic : Prop :=
  exists (sub : T -> T -> T) (opp inv : T -> T),
    field_theory (fromZ 0) (fromZ 1) add mul sub opp div inv eq
    /\ fromZ 2 = add (fromZ 1) (fromZ 1)
    /\ fromZ 6 = mul (fromZ 2) (add (fromZ 2) (fromZ 1))
    /\ fromZ 2 <> fromZ 0
    /\ fromZ 6 <> fromZ 0.

End Runs.

Arguments exact_arithmetic T {_}.

(** * Properties *)

Unset Implicit Arguments.

Section GenericFacts.

Context {T : Type} `{Scalar T}.

(** *** The monad *)

Lemma bind_Ok {A B} (m : M T A) (k : A -> M T B) w w' a :
  m w = (w', Ok a) -> bind m k w = k a w'.
Proof. intros E. unfold bind. rewrite E. reflexivity. Qed.

Lemma bind_Raise {A B} (m : M T A) (k : A -> M T B) w w' e :
  m w = (w', Raise e) -> bind m k w = (w', Raise e).
Proof. intros E. unfold bind. rewrite E. reflexivity. Qed.

Lemma bind_lift_Ok {A B} (r : result A) (k : A -> M T B) w a :
  r = Ok a -> bind (lift r) k w = k a w.
Proof. intros ->. reflexivity. Qed.

Lemma bind_invoke_Ok {B} (f : dynamics T) s c (k : vec T -> M T B) w d :
  f s c = Ok d ->
  bind (invoke f s c) k w = k d (log_calls w [{| arg_state := s; arg_control := c |}]).
Proof. intros E. unfold bind, invoke. rewrite E. reflexivity. Qed.

Lemma log_calls_nil (w : world T) : log_calls w [] = w.
Proof. destruct w. unfold log_calls. simpl. rewrite app_nil_r. reflexivity. Qed.

Lemma log_calls_app (w : world T) cs cs' :
  log_calls (log_calls w cs) cs' = log_calls w (cs ++ cs').
Proof. unfold log_calls. simpl. rewrite app_assoc. reflexivity. Qed.

(** *** Arrays *)

Lemma length_smul c (v : vec T) : length (smul c v) = length v.
Proof. apply length_map. Qed.

Lemma length_sdiv (v : vec T) c : length (sdiv v c) = length v.
Proof. apply length_map. Qed.

Lemma length_zip_add (a b : vec T) :
  length a = length b -> length (zip_add a b) = length a.
Proof.
  revert b. induction a as [|x a IH]; intros [|y b] E; simpl in *;
    try discriminate; auto.
Qed.

Lemma vadd_same_length (a b : vec T) :
  length a = length b -> vadd a b = Ok (zip_add a b).
Proof. intros E. unfold vadd. rewrite E, Nat.eqb_refl. reflexivity. Qed.


(** *** One step of the integrator *)

Lemma integrator_run (f : dynamics T) (dt0 dt : T)
    (state control d1 d2 d3 d4 : vec T) (w : world T) :
  let k1 := smul dt d1 in
  let x2 := zip_add state (sdiv k1 (fromZ 2)) in
  let k2 := smul dt d2 in
  let x3 := zip_add state (sdiv k2 (fromZ 2)) in
  let k3 := smul dt d3 in
  let x4 := zip_add state k3 in
  let k4 := smul dt d4 in
  length d1 = length state -> length d2 = length state ->
  length d3 = length state -> length d4 = length state ->
  f state control = Ok d1 -> f x2 control = Ok d2 ->
  f x3 control = Ok d3 -> f x4 control = Ok d4 ->
  discretize_dynamics_rk4 f dt0 state control dt w =
    (log_calls w [mk_call state control; mk_call x2 control;
                  mk_call x3 control; mk_call x4 control],
     Ok (zip_add state
           (sdiv (zip_add (zip_add (zip_add k1 (smul (fromZ 2) k2))
                                   (smul (fromZ 2) k3)) k4)
                 (fromZ 6)))).
Proof.
  intros k1 x2 k2 x3 k3 x4 k4 L1 L2 L3 L4 E1 E2 E3 E4.
  assert (Lk1 : length k1 = length state) by (unfold k1; now rewrite length_smul).
  assert (Lk2 : length k2 = length state) by (unfold k2; now rewrite length_smul).
  assert (Lk3 : length k3 = length state) by (unfold k3; now rewrite length_smul).
  assert (Lk4 : length k4 = length state) by (unfold k4; now rewrite length_smul).
  unfold discretize_dynamics_rk4.
  rewrite (bind_invoke_Ok _ _ _ _ _ _ E1).
  rewrite (bind_lift_Ok _ _ _ x2) by
    (apply vadd_same_length; now rewrite length_sdiv).
  rewrite (bind_invoke_Ok _ _ _ _ _ _ E2).
  rewrite (bind_lift_Ok _ _ _ x3) by
    (apply vadd_same_length; now rewrite length_sdiv).
  rewrite (bind_invoke_Ok _ _ _ _ _ _ E3).
  rewrite (bind_lift_Ok _ _ _ x4) by (now apply vadd_same_length).
  rewrite (bind_invoke_Ok _ _ _ _ _ _ E4).
  fold k1 k2 k3 k4.
  set (s1 := zip_add k1 (smul (fromZ 2) k2)).
  assert (Ls1 : length s1 = length state)
    by (unfold s1; rewrite length_zip_add; rewrite ?length_smul; congruence).
  rewrite (bind_lift_Ok _ _ _ s1) by
    (apply vadd_same_length; rewrite length_smul; congruence).
  set (s2 := zip_add s1 (smul (fromZ 2) k3)).
  assert (Ls2 : length s2 = length state)
    by (unfold s2; rewrite length_zip_add; rewrite ?length_smul; congruence).
  rewrite (bind_lift_Ok _ _ _ s2) by
    (apply vadd_same_length; rewrite length_smul; congruence).
  set (s3 := zip_add s2 k4).
  assert (Ls3 : length s3 = length state)
    by (unfold s3; rewrite length_zip_add; congruence).
  rewrite (bind_lift_Ok _ _ _ s3) by (apply vadd_same_length; congruence).
  unfold lift. rewrite vadd_same_length by (rewrite length_sdiv; congruence).
  rewrite !log_calls_app. reflexivity.
Qed.




(** *** Steps that cannot fail on well-shaped arrays *)

Lemma rk4_to_total (f : dynamics T) (dt : T) (control : vec T) (n : nat) :
  (forall x, length x = n -> exists d, f x control = Ok d /\ length d = n) ->
  forall x, length x = n -> exists y, length y = n /\ rk4_to f dt control x y.
Proof.
  intros Hf x Lx.
  destruct (Hf x Lx) as (d1 & E1 & L1).
  set (k1 := smul dt d1).
  set (x2 := zip_add x (sdiv k1 (fromZ 2))).
  assert (Lx2 : length x2 = n).
  { unfold x2, k1. rewrite length_zip_add; rewrite ?length_sdiv, ?length_smul; congruence. }
  destruct (Hf x2 Lx2) as (d2 & E2 & L2).
  set (k2 := smul dt d2).
  set (x3 := zip_add x (sdiv k2 (fromZ 2))).
  assert (Lx3 : length x3 = n).
  { unfold x3, k2. rewrite length_zip_add; rewrite ?length_sdiv, ?length_smul; congruence. }
  destruct (Hf x3 Lx3) as (d3 & E3 & L3).
  set (k3 := smul dt d3).
  set (x4 := zip_add x k3).
  assert (Lx4 : length x4 = n).
  { unfold x4, k3. rewrite length_zip_add; rewrite ?length_smul; congruence. }
  destruct (Hf x4 Lx4) as (d4 & E4 & L4).
  eexists. split; [| eexists; split; [| intros w; apply integrator_run with
    (d1 := d1) (d2 := d2) (d3 := d3) (d4 := d4); solve [congruence | assumption] ] ].
  - rewrite length_zip_add; rewrite ?length_sdiv; [assumption|].
    repeat (rewrite length_zip_add; rewrite ?length_smul; try congruence).
  - reflexivity.
Qed.

Lemma newtonian_dynamics_total (control : vec T) :
  length control = 2 ->
  forall x, length x = 4 ->
    exists d, newtonian_dynamics x control = Ok d /\ length d = 4.
Proof.
  intros Lc x Lx.
  destruct x as [|a [|b [|c [|d [|? ?]]]]]; try discriminate.
  destruct control as [|T1 [|T2 [|? ?]]]; try discriminate.
  eexists. split; reflexivity.
Qed.

Lemma hamiltonian_dynamics_total (control : vec T) :
  length control = 2 ->
  forall x, length x = 4 ->
    exists d, hamiltonian_dynamics x control = Ok d /\ length d = 4.
Proof.
  intros Lc x Lx.
  destruct x as [|a [|b [|c [|d [|? ?]]]]]; try discriminate.
  destruct control as [|T1 [|T2 [|? ?]]]; try discriminate.
  eexists. split; reflexivity.
Qed.

Lemma euler_to_total (dt : T) (control x : vec T) :
  length control = 2 -> length x = 4 ->
  exists y, length y = 4 /\ euler_to dt control x y.
Proof.
  intros Lc Lx.
  destruct x as [|a [|b [|c [|d [|? ?]]]]]; try discriminate.
  destruct control as [|T1 [|T2 [|? ?]]]; try discriminate.
  eexists. split; [| do 2 eexists; repeat split; reflexivity ].
  reflexivity.
Qed.

Lemma steps_total {X : Type} (R : X -> X -> Prop) (P : X -> Prop) :
  (forall x, P x -> exists y, P y /\ R x y) ->
  forall n x, P x -> exists y, P y /\ steps R n x y.
Proof.
  intros HR n. induction n as [|n IH]; intros x Px.
  - exists x. split; [assumption | constructor].
  - destruct (HR x Px) as (y & Py & Rxy).
    destruct (IH y Py) as (z & Pz & Syz).
    exists z. split; [assumption | econstructor; eassumption].
Qed.

(** *** The driver's loop *)

Lemma driver_body_run (dt : T) (control h n L h' n' L' : vec T) (i : nat) w :
  rk4_to hamiltonian_dynamics dt control h h' ->
  rk4_to newtonian_dynamics dt control n n' ->
  euler_to dt control L L' ->
  exists cs, length cs = 8 /\
    driver_body dt control i (h, n, L) w = (log_calls w cs, Ok (h', n', L')).
Proof.
  intros (ch & Lh & Eh) (cn & Ln & En) (a & b & Ea & Eb & Eab).
  exists (ch ++ cn). split; [rewrite length_app, Lh, Ln; reflexivity|].
  unfold driver_body.
  rewrite (bind_Ok _ _ _ _ _ (Eh w)).
  rewrite (bind_Ok _ _ _ _ _ (En _)).
  rewrite (bind_lift_Ok _ _ _ _ Ea).
  rewrite (bind_lift_Ok _ _ _ _ Eb).
  rewrite (bind_lift_Ok _ _ _ _ Eab).
  unfold ret. rewrite log_calls_app. reflexivity.
Qed.

Lemma driver_loop (dt : T) (control : vec T) (k : nat) :
  forall s h n L h' n' L' w,
    steps (rk4_to hamiltonian_dynamics dt control) k h h' ->
    steps (rk4_to newtonian_dynamics dt control) k n n' ->
    steps (euler_to dt control) k L L' ->
    exists cs, length cs = 8 * k /\
      for_range (seq s k) (driver_body dt control) (h, n, L) w
      = (log_calls w cs, Ok (h', n', L')).
Proof.
  induction k as [|k IH]; intros s h n L h' n' L' w Sh Sn SL.
  - inversion Sh; inversion Sn; inversion SL; subst.
    exists []. split; [reflexivity|].
    simpl. unfold ret. rewrite log_calls_nil. reflexivity.
  - inversion Sh as [|? ? h1 ? Rh Sh']; inversion Sn as [|? ? n1 ? Rn Sn'];
      inversion SL as [|? ? L1 ? RL SL']; subst.
    destruct (driver_body_run dt control h n L h1 n1 L1 s w Rh Rn RL)
      as (c1 & Lc1 & E1).
    destruct (IH (S s) h1 n1 L1 h' n' L' (log_calls w c1) Sh' Sn' SL')
      as (c2 & Lc2 & E2).
    exists (c1 ++ c2). split; [rewrite length_app, Lc1, Lc2; lia|].
    simpl. rewrite (bind_Ok _ _ _ _ _ E1). rewrite E2.
    rewrite log_calls_app. reflexivity.
Qed.

Lemma main_unfold :
  main =
  (_ <- print {| label := None; value := driver_L_x0 |} ;;
   xs <- for_range (range 5) (driver_body driver_dt driver_control)
           (driver_h_x0, driver_n_x0, driver_L_x0) ;;
   let '(h_x0, n_x0, L_x0) := xs in
   _ <- print {| label := Some "Final Ham. State"%string; value := h_x0 |} ;;
   _ <- print {| label := Some "Final Newt State:"%string; value := n_x0 |} ;;
   print {| label := Some "Final Linear Newt State:"%string; value := L_x0 |}).
Proof. reflexivity. Qed.

Lemma main_run (h5 n5 L5 : vec T) :
  steps (rk4_to hamiltonian_dynamics driver_dt driver_control) 5 driver_h_x0 h5 ->
  steps (rk4_to newtonian_dynamics driver_dt driver_control) 5 driver_n_x0 n5 ->
  steps (euler_to driver_dt driver_control) 5 driver_L_x0 L5 ->
  exists cs, length cs = 40 /\
    main empty_world =
      ({| calls := cs;
          stdout :=
            [ {| label := None; value := driver_L_x0 |};
              {| label := Some "Final Ham. State"%string; value := h5 |};
              {| label := Some "Final Newt State:"%string; value := n5 |};
              {| label := Some "Final Linear Newt State:"%string; value := L5 |} ] |},
       Ok tt).
Proof.
  intros Sh Sn SL.
  destruct (driver_loop driver_dt driver_control 5 0 _ _ _ _ _ _
              (log_lines empty_world [ {| label := None; value := driver_L_x0 |} ])
              Sh Sn SL) as (cs & Lcs & E).
  exists cs. split; [exact Lcs|].
  rewrite main_unfold.
  unfold bind at 1. unfold print at 1.
  unfold range. rewrite (bind_Ok _ _ _ _ _ E).
  reflexivity.
Qed.


(** *** Ill-shaped arrays *)







(** *** Steps are functions *)

Lemma rk4_to_functional (f : dynamics T) (dt : T) (control x y y' : vec T) :
  rk4_to f dt control x y -> rk4_to f dt control x y' -> y = y'.
Proof.
  intros (cs & _ & E) (cs' & _ & E').
  specialize (E empty_world). rewrite (E' empty_world) in E.
  congruence.
Qed.

Lemma euler_to_functional (dt : T) (control x y y' : vec T) :
  euler_to dt control x y -> euler_to dt control x y' -> y = y'.
Proof.
  intros (a & b & Ea & Eb & Eab) (a' & b' & Ea' & Eb' & Eab').
  congruence.
Qed.

Lemma steps_functional {X : Type} (R : X -> X -> Prop) :
  (forall x y y', R x y -> R x y' -> y = y') ->
  forall n x y y', steps R n x y -> steps R n x y' -> y = y'.
Proof.
  intros HR n x y y' S1. revert y'.
  induction S1 as [x|n x y z Rxy S1 IH]; intros y' S2.
  - inversion S2; subst; reflexivity.
  - inversion S2 as [|? ? y2 ? Rxy2 S2']; subst.
    rewrite (HR _ _ _ Rxy Rxy2) in *. apply IH; assumption.
Qed.

End GenericFacts.

(** ** Exact arithmetic *)

Section ExactArithmetic.

Open Scope R_scope.

Lemma vec4_eq {X : Type} (a b c d a' b' c' d' : X) :
  a = a' -> b = b' -> c = c' -> d = d' -> [a; b; c; d] = [a'; b'; c'; d'].
Proof. congruence. Qed.

Ltac vec_field := apply vec4_eq; simpl; field.

(** One RK4 step of the Newtonian model, in closed form. *)
Lemma newtonian_step_exact (dt a b c d T1 T2 : R) :
  rk4_to newtonian_dynamics dt [T1; T2] [a; b; c; d]
    [a + dt * c + dt * dt * T1 / 4; b + dt * d + dt * dt * T2 / 4;
     c + dt * T1 / 2; d + dt * T2 / 2].
Proof.
  destruct (rk4_to_total newtonian_dynamics dt [T1; T2] 4
              (newtonian_dynamics_total [T1; T2] eq_refl) [a; b; c; d] eq_refl)
    as (y & _ & cs & Lcs & E).
  exists cs. split; [exact Lcs|]. intros w. rewrite E. do 2 f_equal.
  specialize (E empty_world). apply (f_equal snd) in E. cbn in E.
  injection E as <-. vec_field.
Qed.


(** One RK4 step of the Hamiltonian model, in closed form. *)
Lemma hamiltonian_step_exact (dt q1 q2 p1 p2 T1 T2 : R) :
  rk4_to hamiltonian_dynamics dt [T1; T2] [q1; q2; p1; p2]
    [q1 + dt * p1 / 2 + dt * dt * T1 / 4; q2 + dt * p2 / 2 + dt * dt * T2 / 4;
     p1 + dt * T1; p2 + dt * T2].
Proof.
  destruct (rk4_to_total hamiltonian_dynamics dt [T1; T2] 4
              (hamiltonian_dynamics_total [T1; T2] eq_refl) [q1; q2; p1; p2] eq_refl)
    as (y & _ & cs & Lcs & E).
  exists cs. split; [exact Lcs|]. intros w. rewrite E. do 2 f_equal.
  specialize (E empty_world). apply (f_equal snd) in E. cbn in E.
  injection E as <-. vec_field.
Qed.

(** One step of the linear model, in closed form. *)
Lemma euler_step_exact (dt a b c d T1 T2 : R) :
  euler_to dt [T1; T2] [a; b; c; d]
    [a + dt * c; b + dt * d; c + dt * T1 / 2; d + dt * T2 / 2].
Proof.
  unfold euler_to. do 2 eexists. repeat split; try reflexivity.
  cbn. f_equal. vec_field.
Qed.

(** [n] RK4 steps of the Newtonian model: the state at time [n * dt] of the
    uniformly accelerated motion. *)
Lemma newtonian_steps_exact (dt T1 T2 : R) (n : nat) :
  forall a b c d,
    steps (rk4_to newtonian_dynamics dt [T1; T2]) n [a; b; c; d]
      [a + INR n * dt * c + (INR n * dt) * (INR n * dt) * T1 / 4;
       b + INR n * dt * d + (INR n * dt) * (INR n * dt) * T2 / 4;
       c + INR n * dt * T1 / 2;
       d + INR n * dt * T2 / 2].
Proof.
  induction n as [|n IH]; intros a b c d.
  - replace [a; b; c; d] with
      [a + INR 0 * dt * c + (INR 0 * dt) * (INR 0 * dt) * T1 / 4;
       b + INR 0 * dt * d + (INR 0 * dt) * (INR 0 * dt) * T2 / 4;
       c + INR 0 * dt * T1 / 2; d + INR 0 * dt * T2 / 2] at 1
      by vec_field.
    constructor.
  - eapply steps_S; [apply newtonian_step_exact|].
    match goal with |- steps _ _ ?x ?y =>
      match type of (IH (a + dt * c + dt * dt * T1 / 4)
                        (b + dt * d + dt * dt * T2 / 4)
                        (c + dt * T1 / 2) (d + dt * T2 / 2)) with
      | steps _ _ _ ?y' => replace y with y'; [apply IH|]
      end
    end.
    rewrite S_INR. apply vec4_eq; field.
Qed.

(** [n] RK4 steps of the Hamiltonian model. *)
Lemma hamiltonian_steps_exact (dt T1 T2 : R) (n : nat) :
  forall q1 q2 p1 p2,
    steps (rk4_to hamiltonian_dynamics dt [T1; T2]) n [q1; q2; p1; p2]
      [q1 + INR n * dt * p1 / 2 + (INR n * dt) * (INR n * dt) * T1 / 4;
       q2 + INR n * dt * p2 / 2 + (INR n * dt) * (INR n * dt) * T2 / 4;
       p1 + INR n * dt * T1;
       p2 + INR n * dt * T2].
Proof.
  induction n as [|n IH]; intros q1 q2 p1 p2.
  - replace [q1; q2; p1; p2] with
      [q1 + INR 0 * dt * p1 / 2 + (INR 0 * dt) * (INR 0 * dt) * T1 / 4;
       q2 + INR 0 * dt * p2 / 2 + (INR 0 * dt) * (INR 0 * dt) * T2 / 4;
       p1 + INR 0 * dt * T1; p2 + INR 0 * dt * T2] at 1
      by vec_field.
    constructor.
  - eapply steps_S; [apply hamiltonian_step_exact|].
    match goal with |- steps _ _ ?x ?y =>
      match type of (IH (q1 + dt * p1 / 2 + dt * dt * T1 / 4)
                        (q2 + dt * p2 / 2 + dt * dt * T2 / 4)
                        (p1 + dt * T1) (p2 + dt * T2)) with
      | steps _ _ _ ?y' => replace y with y'; [apply IH|]
      end
    end.
    rewrite S_INR. apply vec4_eq; field.
Qed.

(** [n] steps of the linear model: the rates as above, the angles with the
    forward-Euler sum [dt^2 * (T/I) * n (n - 1) / 2] in place of
    [(n dt)^2 * (T/I) / 2]. *)
Lemma euler_steps_exact (dt T1 T2 : R) (n : nat) :
  forall a b c d,
    steps (euler_to dt [T1; T2]) n [a; b; c; d]
      [a + INR n * dt * c + dt * dt * T1 * (INR n * (INR n - 1)) / 4;
       b + INR n * dt * d + dt * dt * T2 * (INR n * (INR n - 1)) / 4;
       c + INR n * dt * T1 / 2;
       d + INR n * dt * T2 / 2].
Proof.
  induction n as [|n IH]; intros a b c d.
  - replace [a; b; c; d] with
      [a + INR 0 * dt * c + dt * dt * T1 * (INR 0 * (INR 0 - 1)) / 4;
       b + INR 0 * dt * d + dt * dt * T2 * (INR 0 * (INR 0 - 1)) / 4;
       c + INR 0 * dt * T1 / 2; d + INR 0 * dt * T2 / 2] at 1
      by vec_field.
    constructor.
  - eapply steps_S; [apply euler_step_exact|].
    match goal with |- steps _ _ ?x ?y =>
      match type of (IH (a + dt * c) (b + dt * d)
                        (c + dt * T1 / 2) (d + dt * T2 / 2)) with
      | steps _ _ _ ?y' => replace y with y'; [apply IH|]
      end
    end.
    rewrite S_INR. apply vec4_eq; field.
Qed.

End ExactArithmetic.

(** ** Steps as functions *)

Section StepFunctions.

Context {T : Type} `{Scalar T}.

(** What a step returns and the calls it adds do not depend on the world it
    starts in; a step that returns has added four calls. *)
Lemma integrator_world_independent (f : dynamics T) (dt0 dt : T)
    (state control : vec T) :
  exists (cs : list (call T)) (r : result (vec T)),
    (forall w, discretize_dynamics_rk4 f dt0 state control dt w = (log_calls w cs, r))
    /\ (forall y, r = Ok y -> length cs = 4).
Proof.
  unfold discretize_dynamics_rk4, bind, invoke, lift.
  repeat match goal with
         | |- context [match ?r with Ok _ => _ | Raise _ => _ end] =>
             destruct r eqn:?
         end;
    do 2 eexists;
    (split; [intros w; rewrite ?log_calls_app; cbn [app]; reflexivity|]);
    intros y Hy; try discriminate; reflexivity.
Qed.

Lemma rk4_to_of_snd (f : dynamics T) (dt : T) (control x y : vec T) :
  snd (discretize_dynamics_rk4 f dt x control dt empty_world) = Ok y ->
  rk4_to f dt control x y.
Proof.
  intros E.
  destruct (integrator_world_independent f dt dt x control) as (cs & r & Hw & Hc).
  rewrite Hw in E. cbn [snd] in E. subst r.
  exists cs. split; [now apply (Hc y) | exact Hw].
Qed.

Lemma snd_of_rk4_to (f : dynamics T) (dt : T) (control x y : vec T) :
  rk4_to f dt control x y ->
  snd (discretize_dynamics_rk4 f dt x control dt empty_world) = Ok y.
Proof. intros (cs & _ & E). rewrite E. reflexivity. Qed.


Lemma steps_advance (f : dynamics T) (dt : T) (control : vec T) (n : nat) :
  forall x y, steps (rk4_to f dt control) n x y ->
              advance f dt control n x = Ok y.
Proof.
  intros x y S. induction S as [x|n x z y Rxz S IH]; [reflexivity|].
  simpl. rewrite (snd_of_rk4_to _ _ _ _ _ Rxz). exact IH.
Qed.

Lemma euler_step_iff (dt : T) (control x y : vec T) :
  euler_step dt control x = Ok y <-> euler_to dt control x y.
Proof.
  unfold euler_step, euler_to. split.
  - destruct (matvec (fst (linear_dynamics dt)) x) as [a|]; [|discriminate].
    destruct (matvec (snd (linear_dynamics dt)) control) as [b|]; [|discriminate].
    intros E. now exists a, b.
  - intros (a & b & -> & -> & E). exact E.
Qed.

Lemma euler_advance_steps (dt : T) (control : vec T) (n : nat) :
  forall x y, euler_advance dt control n x = Ok y ->
              steps (euler_to dt control) n x y.
Proof.
  induction n as [|n IH]; intros x y E; simpl in E.
  - injection E as <-. constructor.
  - destruct (euler_step dt control x) as [z|e] eqn:Ez; [|discriminate].
    econstructor; [apply euler_step_iff; exact Ez | apply IH; exact E].
Qed.

Lemma steps_euler_advance (dt : T) (control : vec T) (n : nat) :
  forall x y, steps (euler_to dt control) n x y ->
              euler_advance dt control n x = Ok y.
Proof.
  intros x y S. induction S as [x|n x z y Rxz S IH]; [reflexivity|].
  simpl. apply euler_step_iff in Rxz. rewrite Rxz. exact IH.
Qed.



End StepFunctions.

(** ** Exact arithmetic in general *)

Section ExactField.

Context {T : Type} `{Scalar T}.

Variables (sub : T -> T -> T) (opp inv : T -> T).

Hypothesis Fth : field_theory (fromZ 0) (fromZ 1) add mul sub opp div inv eq.
Hypothesis E2 : fromZ 2 = add (fromZ 1) (fromZ 1).
Hypothesis E6 : fromZ 6 = mul (fromZ 2) (add (fromZ 2) (fromZ 1)).
Hypothesis N2 : fromZ 2 <> fromZ 0.
Hypothesis N6 : fromZ 6 <> fromZ 0.

Add Field scalar_field : Fth.

Ltac refold :=
  fold (@fromZ T H) in *; fold (@add T H) in *; fold (@mul T H) in *;
  fold (@div T H) in *.

Ltac nonzero :=
  repeat split;
  let Hc := fresh in
  intro Hc; refold;
  solve [ apply N2; etransitivity; [|exact Hc]; rewrite ?E6, ?E2; ring
        | apply N6; etransitivity; [|exact Hc]; rewrite ?E6, ?E2; ring ].

Ltac tfield := rewrite ?E6, ?E2; field; nonzero.



(** One step of the Newtonian RK4 path and one of the linear path from
    states with the same rates: the rates reached are the same,
    [rate + dt * (T/I)]. *)
Lemma rates_step_field (dt T1 T2 a b a0 b0 c d : T) :
  exists a' b' a0' b0' : T,
    rk4_to newtonian_dynamics dt [T1; T2] [a; b; c; d]
      [a'; b'; add c (mul dt (div T1 (fromZ 2))); add d (mul dt (div T2 (fromZ 2)))]
    /\ euler_to dt [T1; T2] [a0; b0; c; d]
         [a0'; b0'; add c (mul dt (div T1 (fromZ 2)));
          add d (mul dt (div T2 (fromZ 2)))]
    /\ (a0 = a -> a' = add a0' (div (mul (mul dt dt) (div T1 (fromZ 2))) (fromZ 2)))
    /\ (b0 = b -> b' = add b0' (div (mul (mul dt dt) (div T2 (fromZ 2))) (fromZ 2))).
Proof.
  destruct (rk4_to_total newtonian_dynamics dt [T1; T2] 4
              (newtonian_dynamics_total [T1; T2] eq_refl) [a; b; c; d] eq_refl)
    as (y & _ & cs & Lcs & E).
  pose proof (f_equal snd (E empty_world)) as E0. cbn in E0.
  injection E0 as <-.
  destruct (euler_step dt [T1; T2] [a0; b0; c; d]) as [z|e] eqn:Ez;
    cbn in Ez; [|discriminate].
  injection Ez as <-.
  do 4 eexists. split; [|split].
  - exists cs. split; [exact Lcs|]. intros w. rewrite E. do 2 f_equal.
    apply vec4_eq; [reflexivity | reflexivity | tfield | tfield].
  - apply euler_step_iff. cbn. f_equal.
    apply vec4_eq; [reflexivity | reflexivity | tfield | tfield].
  - split; intros ->; tfield.
Qed.

Lemma rates_steps_field (dt T1 T2 : T) (n : nat) :
  forall a b a0 b0 c d : T,
  exists a' b' a0' b0' c' d' : T,
    steps (rk4_to newtonian_dynamics dt [T1; T2]) n [a; b; c; d] [a'; b'; c'; d']
    /\ steps (euler_to dt [T1; T2]) n [a0; b0; c; d] [a0'; b0'; c'; d'].
Proof.
  induction n as [|n IH]; intros a b a0 b0 c d.
  - exists a, b, a0, b0, c, d. split; constructor.
  - destruct (rates_step_field dt T1 T2 a b a0 b0 c d)
      as (a1 & b1 & a01 & b01 & Rn & Re & _).
    destruct (IH a1 b1 a01 b01 (add c (mul dt (div T1 (fromZ 2))))
                (add d (mul dt (div T2 (fromZ 2)))))
      as (a' & b' & a0' & b0' & c' & d' & Sn & Se).
    exists a', b', a0', b0', c', d'. split; econstructor; eassumption.
Qed.

End ExactField.

Lemma R_exact_arithmetic : exact_arithmetic R.
Proof.
  exists Rminus, Ropp, Rinv. split; [exact Rfield|].
  cbn [fromZ R_scalar add mul]. repeat split; lra.
Qed.

(** * The specification's claims *)

Section Claims.

Context {T : Type} `{Scalar T}.

(** C2.  One call of the step function built by [discretize_dynamics_rk4]:
    when [f] answers at the four points the method visits with arrays of the
    state's length, the step returns
    [state + (k1 + 2*k2 + 2*k3 + k4)/6] with [k1 = dt*f(state,control)],
    [k2 = dt*f(state+k1/2,control)], [k3 = dt*f(state+k2/2,control)],
    [k4 = dt*f(state+k3,control)], where [dt] is the step size of the call,
    and [f] has been called exactly four times, at those four points and in
    that order. *)
Theorem rk4_step_formula (f : dynamics T) (dt0 dt : T)
    (state control d1 d2 d3 d4 : vec T) (w : world T) :
  let k1 := smul dt d1 in
  let x2 := zip_add state (sdiv k1 (fromZ 2)) in
  let k2 := smul dt d2 in
  let x3 := zip_add state (sdiv k2 (fromZ 2)) in
  let k3 := smul dt d3 in
  let x4 := zip_add state k3 in
  let k4 := smul dt d4 in
  f state control = Ok d1 -> f x2 control = Ok d2 ->
  f x3 control = Ok d3 -> f x4 control = Ok d4 ->
  length d1 = length state -> length d2 = length state ->
  length d3 = length state -> length d4 = length state ->
  snd (discretize_dynamics_rk4 f dt0 state control dt w) =
    Ok (zip_add state
          (sdiv (zip_add (zip_add (zip_add k1 (smul (fromZ 2) k2))
                                  (smul (fromZ 2) k3)) k4)
                (fromZ 6)))
  /\ calls (fst (discretize_dynamics_rk4 f dt0 state control dt w)) =
       calls w ++ [mk_call state control; mk_call x2 control;
                   mk_call x3 control; mk_call x4 control]
  /\ stdout (fst (discretize_dynamics_rk4 f dt0 state control dt w)) = stdout w.
Proof.
  intros k1 x2 k2 x3 k3 x4 k4 E1 E2 E3 E4 L1 L2 L3 L4.
  rewrite (integrator_run f dt0 dt state control d1 d2 d3 d4 w L1 L2 L3 L4 E1 E2 E3 E4).
  repeat split.
Qed.

(** C3.  [newtonian_dynamics] maps the state [(th1, th2, th1d, th2d)] and
    the control [(T1, T2)] to [(th1d, th2d, T1/Ix, T2/Iy)] with
    [Ix = Iy = 2.0]; the result is a function of these arguments alone. *)
Theorem newtonian_dynamics_spec (th1 th2 th1d th2d T1 T2 : T) :
  newtonian_dynamics [th1; th2; th1d; th2d] [T1; T2]
  = Ok [th1d; th2d; div T1 (fromZ 2); div T2 (fromZ 2)].
Proof. reflexivity. Qed.

(** C4.  [hamiltonian_dynamics] maps the state [(q1, q2, p1, p2)] and the
    control [(T1, T2)] to [(p1/Ix, p2/Iy, T1, T2)] with [Ix = Iy = 2.0]; the
    result is a function of these arguments alone. *)
Theorem hamiltonian_dynamics_spec (q1 q2 p1 p2 T1 T2 : T) :
  hamiltonian_dynamics [q1; q2; p1; p2] [T1; T2]
  = Ok [div p1 (fromZ 2); div p2 (fromZ 2); T1; T2].
Proof. reflexivity. Qed.

(** C5.  [linear_dynamics dt] is the pair of the 4x4 matrix [A] and the 4x2
    matrix [B] of the specification, with [Ix = Iy = 2.0]; nothing but [dt]
    enters it. *)
Theorem linear_dynamics_spec (dt : T) :
  linear_dynamics dt =
  ([[fromZ 1; fromZ 0; dt; fromZ 0];
    [fromZ 0; fromZ 1; fromZ 0; dt];
    [fromZ 0; fromZ 0; fromZ 1; fromZ 0];
    [fromZ 0; fromZ 0; fromZ 0; fromZ 1]],
   [[fromZ 0; fromZ 0];
    [fromZ 0; fromZ 0];
    [div dt (fromZ 2); fromZ 0];
    [fromZ 0; div dt (fromZ 2)]]).
Proof. reflexivity. Qed.

(** C6.  The driver starts from the Newtonian state [(0, 0, 0.15, -0.15)],
    the Hamiltonian state [(0, 0, 0.15*Ix, -0.15*Iy)] and the linear state
    [(0, 0, 0.15, -0.15)]; it prints the initial linear state, then takes
    exactly five iterations with control [(0.5, 0.5)] and [dt = 0.001], each
    one RK4 step of the Hamiltonian state, one RK4 step of the Newtonian
    state and one step [A @ state + B @ control] of the linear state (forty
    calls of the dynamics functions in all), then prints the three final
    states, and ends without raising. *)
Theorem driver_behaviour :
  let Ix := fromZ 2 in
  let Iy := fromZ 2 in
  let dt := dec 1 1000 in
  let control := [dec 5 10; dec 5 10] in
  let n_x0 := [fromZ 0; fromZ 0; dec 15 100; dec (-15) 100] in
  let h_x0 := [fromZ 0; fromZ 0; mul (dec 15 100) Ix; mul (dec (-15) 100) Iy] in
  let L_x0 := [fromZ 0; fromZ 0; dec 15 100; dec (-15) 100] in
  exists (h5 n5 L5 : vec T) (cs : list (call T)),
    steps (rk4_to hamiltonian_dynamics dt control) 5 h_x0 h5 /\
    steps (rk4_to newtonian_dynamics dt control) 5 n_x0 n5 /\
    steps (euler_to dt control) 5 L_x0 L5 /\
    length cs = 40 /\
    main empty_world =
      ({| calls := cs;
          stdout :=
            [ {| label := None; value := L_x0 |};
              {| label := Some "Final Ham. State"%string; value := h5 |};
              {| label := Some "Final Newt State:"%string; value := n5 |};
              {| label := Some "Final Linear Newt State:"%string; value := L5 |} ] |},
       Ok tt).
Proof.
  intros Ix Iy dt control n_x0 h_x0 L_x0.
  assert (Lc : length control = 2) by reflexivity.
  destruct (steps_total (rk4_to hamiltonian_dynamics dt control)
              (fun x => length x = 4)
              (rk4_to_total hamiltonian_dynamics dt control 4
                 (hamiltonian_dynamics_total control Lc))
              5 h_x0 eq_refl) as (h5 & _ & Sh).
  destruct (steps_total (rk4_to newtonian_dynamics dt control)
              (fun x => length x = 4)
              (rk4_to_total newtonian_dynamics dt control 4
                 (newtonian_dynamics_total control Lc))
              5 n_x0 eq_refl) as (n5 & _ & Sn).
  destruct (steps_total (euler_to dt control) (fun x => length x = 4)
              (fun x Lx => euler_to_total dt control x Lc Lx)
              5 L_x0 eq_refl) as (L5 & _ & SL).
  destruct (main_run h5 n5 L5 Sh Sn SL) as (cs & Lcs & E).
  exists h5, n5, L5, cs. repeat split; assumption.
Qed.


End Claims.

Set Warnings "-inexact-float".

(** ** Claims on the driver's numbers and on failures *)

Open Scope R_scope.

(** C8.  The driver's scenario ([Ix = Iy = 2], [dt = 0.001], control
    [(0.5, 0.5)], angles [(0, 0)], rates [(0.15, -0.15)]) in exact
    arithmetic: the Newtonian state printed after the five RK4 steps is
    [(0.000753125, -0.000746875, 0.15125, -0.14875)].  Its rates are the
    initial rates plus [(T/I) * 5 * dt]; its angles are [rate * 5 * dt] plus
    the torque contribution [(T/I) * (5 * dt)^2 / 2 = 0.000003125], hence
    within [0.00001] of [0.00075] and [-0.00075]. *)
Theorem driver_newtonian_final_state :
  exists (l0 lH lL : line R) (th1 th2 th1d th2d : R),
    printed (T := R) main =
      [l0; lH;
       {| label := Some "Final Newt State:"%string;
          value := [th1; th2; th1d; th2d] |};
       lL]
    /\ th1d = 0.15 + 0.5 / 2 * (5 * 0.001) /\ th1d = 0.15125
    /\ th2d = -0.15 + 0.5 / 2 * (5 * 0.001) /\ th2d = -0.14875
    /\ th1 = 0.15 * (5 * 0.001) + 0.5 / 2 * ((5 * 0.001) * (5 * 0.001)) / 2
    /\ th1 = 0.000753125
    /\ th2 = -0.15 * (5 * 0.001) + 0.5 / 2 * ((5 * 0.001) * (5 * 0.001)) / 2
    /\ th2 = -0.000746875
    /\ Rabs (th1 - 0.00075) <= 0.00001
    /\ Rabs (th2 - -0.00075) <= 0.00001.
Proof.
  pose proof (hamiltonian_steps_exact (dec 1 1000) (dec 5 10) (dec 5 10) 5
                (fromZ 0) (fromZ 0) (mul (dec 15 100) (fromZ 2))
                (mul (dec (-15) 100) (fromZ 2))) as Sh.
  pose proof (newtonian_steps_exact (dec 1 1000) (dec 5 10) (dec 5 10) 5
                (fromZ 0) (fromZ 0) (dec 15 100) (dec (-15) 100)) as Sn.
  pose proof (euler_steps_exact (dec 1 1000) (dec 5 10) (dec 5 10) 5
                (fromZ 0) (fromZ 0) (dec 15 100) (dec (-15) 100)) as SL.
  destruct (main_run _ _ _ Sh Sn SL) as (cs & _ & E).
  unfold printed. rewrite E. cbn [fst stdout].
  do 7 eexists. split; [reflexivity|].
  unfold dec; cbn [fromZ div mul add R_scalar INR].
  repeat split; try lra;
    apply Rabs_le; lra.
Qed.


(** *** The claims with hypotheses, at concrete inputs *)

Lemma rk4_step_formula_witness :
  exists (y : vec R) (cs : list (call R)),
    snd (discretize_dynamics_rk4 newtonian_dynamics 0.001
           [0; 0; 0.15; -0.15] [0.5; 0.5] 0.001 empty_world) = Ok y
    /\ calls (fst (discretize_dynamics_rk4 newtonian_dynamics 0.001
                     [0; 0; 0.15; -0.15] [0.5; 0.5] 0.001 empty_world)) = cs
    /\ length cs = 4%nat.
Proof.
  edestruct (rk4_step_formula (T := R) newtonian_dynamics 0.001 0.001
               [0; 0; 0.15; -0.15] [0.5; 0.5]) as (Hy & Hc & _).
  1-8: reflexivity.
  do 2 eexists. split; [exact Hy|]. split; [exact Hc|]. reflexivity.
Defined.


Close Scope R_scope.

(** ** Tables of the driver's run in binary64 *)


(** The linear path of the driver, continued for a hundred steps, has at
    every step the rates of the Newtonian path. *)
Lemma driver_rates_table :
  map (fun n => rates_of (euler_advance (T := float)
                            driver_dt driver_control n driver_L_x0)) (seq 0 101)
  = map (fun n => rates_of (advance (T := float) newtonian_dynamics
                              driver_dt driver_control n driver_n_x0)) (seq 0 101).
Proof. vm_compute. reflexivity. Qed.

Lemma table_lookup {A : Type} (f g : nat -> A) (k n : nat) :
  map f (seq 0 (S k)) = map g (seq 0 (S k)) -> n <= k -> f n = g n.
Proof.
  intros E Hn. rewrite map_ext_in_iff in E. apply E.
  apply in_seq. lia.
Qed.

Lemma driver_newtonian_path (n : nat) :
  exists a b c d : float,
    steps (rk4_to newtonian_dynamics driver_dt driver_control) n
      driver_n_x0 [a; b; c; d].
Proof.
  destruct (steps_total (rk4_to newtonian_dynamics driver_dt driver_control)
              (fun x : vec float => length x = 4)
              (rk4_to_total newtonian_dynamics driver_dt driver_control 4
                 (newtonian_dynamics_total driver_control eq_refl))
              n driver_n_x0 eq_refl) as (y & Ly & Sy).
  destruct y as [|a [|b [|c [|d [|? ?]]]]]; try discriminate.
  now exists a, b, c, d.
Qed.

Lemma driver_linear_path (n : nat) :
  exists a b c d : float,
    steps (euler_to driver_dt driver_control) n driver_L_x0 [a; b; c; d].
Proof.
  destruct (steps_total (euler_to driver_dt driver_control)
              (fun x : vec float => length x = 4)
              (fun x Lx => euler_to_total driver_dt driver_control x eq_refl Lx)
              n driver_L_x0 eq_refl) as (y & Ly & Sy).
  destruct y as [|a [|b [|c [|d [|? ?]]]]]; try discriminate.
  now exists a, b, c, d.
Qed.

(** ** The claims on the arithmetic *)


Open Scope R_scope.


Close Scope R_scope.


(** C7.  The step size of the factory plays no part: two integrators built
    from the same [f] with different [dt] are the same step function, for
    every scalar type.  The step size of the call does: in binary64, from
    the driver's initial Newtonian state under its control, the call with
    [dt = 0.001] and the call with [dt = 0.002] return different states,
    whatever step size the integrator was built with. *)
Theorem call_time_dt_is_used :
  (forall (T : Type) (S : Scalar T) (f : dynamics T) (dt1 dt2 dt : T)
          (state control : vec T) (w : world T),
      discretize_dynamics_rk4 f dt1 state control dt w
      = discretize_dynamics_rk4 f dt2 state control dt w)
  /\ (forall (dt0 : float) (w : world float),
        snd (discretize_dynamics_rk4 newtonian_dynamics dt0
               [0; 0; 0.15; -0.15]%float [0.5; 0.5]%float 0.001%float w)
        = Ok [0.00015012499999999998; -0.00014987500000000002;
              0.15024999999999999; -0.14974999999999999]%float
        /\ snd (discretize_dynamics_rk4 newtonian_dynamics dt0
                  [0; 0; 0.15; -0.15]%float [0.5; 0.5]%float 0.002%float w)
           = Ok [0.00030049999999999999; -0.00029950000000000002;
                 0.15049999999999999; -0.14949999999999999]%float
        /\ snd (discretize_dynamics_rk4 newtonian_dynamics dt0
                  [0; 0; 0.15; -0.15]%float [0.5; 0.5]%float 0.001%float w)
           <> snd (discretize_dynamics_rk4 newtonian_dynamics dt0
                     [0; 0; 0.15; -0.15]%float [0.5; 0.5]%float 0.002%float w)).
Proof.
  split; [reflexivity|].
  intros dt0 w.
  assert (E1 : snd (discretize_dynamics_rk4 newtonian_dynamics dt0
                      [0; 0; 0.15; -0.15]%float [0.5; 0.5]%float 0.001%float w)
               = Ok [0.00015012499999999998; -0.00014987500000000002;
                     0.15024999999999999; -0.14974999999999999]%float).
  { destruct (integrator_world_independent newtonian_dynamics dt0 0.001%float
                [0; 0; 0.15; -0.15]%float [0.5; 0.5]%float) as (cs & r & Hw & _).
    rewrite Hw. cbn [snd].
    pose proof (f_equal snd (Hw empty_world)) as E. cbn [snd] in E.
    rewrite <- E. vm_compute. reflexivity. }
  assert (E2 : snd (discretize_dynamics_rk4 newtonian_dynamics dt0
                      [0; 0; 0.15; -0.15]%float [0.5; 0.5]%float 0.002%float w)
               = Ok [0.00030049999999999999; -0.00029950000000000002;
                     0.15049999999999999; -0.14949999999999999]%float).
  { destruct (integrator_world_independent newtonian_dynamics dt0 0.002%float
                [0; 0; 0.15; -0.15]%float [0.5; 0.5]%float) as (cs & r & Hw & _).
    rewrite Hw. cbn [snd].
    pose proof (f_equal snd (Hw empty_world)) as E. cbn [snd] in E.
    rewrite <- E. vm_compute. reflexivity. }
  split; [exact E1|]. split; [exact E2|].
  rewrite E1, E2. intros E.
  apply (f_equal (fun r => match r with
                           | Ok (x :: _) => PrimFloat.ltb x 0.0002%float
                           | _ => false
                           end)) in E.
  vm_compute in E. discriminate.
Qed.


(** C10, as the code has it.  In exact arithmetic the rates of one RK4 step
    of the Newtonian model are [th1d + dt*(T1/Ix)] and [th2d + dt*(T2/Iy)],
    the very rates of the step [A @ state + B @ control] of the linear
    model, while the angles of the two steps differ by [dt^2 * (T/I) / 2];
    hence from a common start the two paths have the same rates after any
    number [n] of steps.  In binary64 the two paths of the driver have the
    same rates, bit for bit, after each of its five iterations and of the
    next ninety-five. *)
Theorem linear_and_rk4_rates_agree :
  (forall (T : Type) (S : Scalar T),
      exact_arithmetic T ->
      forall (n : nat) (dt T1 T2 th1 th2 th1d th2d : T),
        (exists a b a' b' : T,
            rk4_to newtonian_dynamics dt [T1; T2] [th1; th2; th1d; th2d]
              [a; b; add th1d (mul dt (div T1 (fromZ 2)));
               add th2d (mul dt (div T2 (fromZ 2)))]
            /\ euler_to dt [T1; T2] [th1; th2; th1d; th2d]
                 [a'; b'; add th1d (mul dt (div T1 (fromZ 2)));
                  add th2d (mul dt (div T2 (fromZ 2)))]
            /\ a = add a' (div (mul (mul dt dt) (div T1 (fromZ 2))) (fromZ 2))
            /\ b = add b' (div (mul (mul dt dt) (div T2 (fromZ 2))) (fromZ 2)))
        /\ (exists a b a' b' c d : T,
              steps (rk4_to newtonian_dynamics dt [T1; T2]) n
                [th1; th2; th1d; th2d] [a; b; c; d]
              /\ steps (euler_to dt [T1; T2]) n
                   [th1; th2; th1d; th2d] [a'; b'; c; d]))
  /\ (let dt : float := dec 1 1000 in
      let control : vec float := [dec 5 10; dec 5 10] in
      let x0 : vec float := [fromZ 0; fromZ 0; dec 15 100; dec (-15) 100] in
      forall n : nat, n <= 100 ->
      exists a b a' b' c d : float,
        steps (rk4_to newtonian_dynamics dt control) n x0 [a; b; c; d]
        /\ steps (euler_to dt control) n x0 [a'; b'; c; d]).
Proof.
  split.
  - intros T S (sub & opp & inv & Fth & E2 & E6 & N2 & N6)
      n dt T1 T2 th1 th2 th1d th2d.
    split.
    + destruct (rates_step_field sub opp inv Fth E2 E6 N2 N6
                  dt T1 T2 th1 th2 th1 th2 th1d th2d)
        as (a & b & a' & b' & Rn & Re & Ha & Hb).
      exists a, b, a', b'. repeat split; auto.
    + exact (rates_steps_field sub opp inv Fth E2 E6 N2 N6
               dt T1 T2 n th1 th2 th1 th2 th1d th2d).
  - intros dt control x0 n Hn.
    destruct (driver_newtonian_path n) as (a & b & c & d & Sn).
    destruct (driver_linear_path n) as (a' & b' & c' & d' & Se).
    pose proof (table_lookup _ _ 100 n driver_rates_table Hn) as E.
    cbv beta in E.
    rewrite (steps_advance _ _ _ _ _ _ Sn) in E.
    rewrite (steps_euler_advance _ _ _ _ _ Se) in E.
    cbn [rates_of] in E. injection E as -> ->.
    exists a, b, a', b', c, d. split; assumption.
Qed.

Open Scope R_scope.

Lemma linear_and_rk4_rates_agree_witness :
  exists a b a' b' c d : R,
    steps (rk4_to newtonian_dynamics 0.001 [0.5; 0.5]) 5
      [0; 0; 0.15; -0.15] [a; b; c; d]
    /\ steps (euler_to 0.001 [0.5; 0.5]) 5
         [0; 0; 0.15; -0.15] [a'; b'; c; d].
Proof.
  exact (proj2 (proj1 linear_and_rk4_rates_agree R R_scalar R_exact_arithmetic
                  5%nat 0.001 0.5 0.5 0 0 0.15 (-0.15))).
Defined.

Close Scope R_scope.

(** C10, as the specification words it, fails in binary64: the two rate
    computations round differently.  At rest, control [(1.5, 0)],
    [dt = 0.001]: the RK4 step gives the rate [0.00075000000000000012], the
    linear step [0.00075000000000000002]. *)
Lemma rates_differ_after_rounding :
  rk4_to (T := float) newtonian_dynamics 0.001%float [1.5; 0]%float
    [0; 0; 0; 0]%float
    [3.7500000000000001e-07; 0; 0.00075000000000000012; 0]%float
  /\ euler_to (T := float) 0.001%float [1.5; 0]%float
       [0; 0; 0; 0]%float [0; 0; 0.00075000000000000002; 0]%float
  /\ PrimFloat.ltb 0.00075000000000000002%float 0.00075000000000000012%float = true.
Proof.
  split; [apply rk4_to_of_snd; vm_compute; reflexivity|].
  split; [apply euler_step_iff; vm_compute; reflexivity|].
  vm_compute. reflexivity.
Qed.

(** ** The driver in binary64 *)

(** The run of the script with the rounding of float64: the line printed
    before the loop and the two RK4 lines, in the shortest decimals that
    denote the doubles. *)
Example driver_binary64_output :
  firstn 3 (printed (T := float) main) =
  [ {| label := None;
       value := [0; 0; 0.15; -0.15]%float |};
    {| label := Some "Final Ham. State"%string;
       value := [0.000753125; -0.000746875; 0.3025; -0.2975]%float |};
    {| label := Some "Final Newt State:"%string;
       value := [0.000753125; -0.000746875; 0.15125; -0.14875]%float |} ].
Proof. vm_compute. reflexivity. Qed.

(** In that run the momenta are the rates doubled, bit for bit, and forty
    calls of the dynamics functions were made. *)
Example driver_binary64_scaling :
  match printed (T := float) main with
  | [_; lH; lN; _] =>
      match value lH, value lN with
      | [q1; q2; p1; p2], [th1; th2; th1d; th2d] =>
          [q1; q2; p1; p2] = [th1; th2; PrimFloat.mul 2 th1d; PrimFloat.mul 2 th2d]
      | _, _ => False
      end
  | _ => False
  end
  /\ length (calls (fst (main (T := float) empty_world))) = 40.
Proof. vm_compute. split; reflexivity. Qed.

(** * Further properties of the code *)

Section StepShape.

Context {T : Type} `{Scalar T}.

Lemma vadd_mismatch (a b : vec T) :
  length a <> length b -> length a <> 1 -> length b <> 1 ->
  vadd a b = Raise (BroadcastError (length a) (length b)).
Proof.
  intros Hab Ha Hb. unfold vadd.
  destruct (Nat.eqb_spec (length a) (length b)) as [E|_]; [now elim Hab|].
  destruct a as [|x [|x' a]]; destruct b as [|y [|y' b]];
    try reflexivity; simpl in *; congruence.
Qed.

(** X1.  A derivative whose length is neither that of the state nor one
    cannot be added to the state: the step raises numpy's broadcasting
    error while forming [state + k1/2], after a single call of [f]. *)
Theorem derivative_shape_mismatch_raises (f : dynamics T) (dt0 dt : T)
    (state control d1 : vec T) (w : world T) :
  f state control = Ok d1 ->
  length d1 <> length state -> length d1 <> 1 -> length state <> 1 ->
  discretize_dynamics_rk4 f dt0 state control dt w
  = (log_calls w [mk_call state control],
     Raise (BroadcastError (length state) (length d1))).
Proof.
  intros E Hd H1 Hs. unfold discretize_dynamics_rk4.
  rewrite (bind_invoke_Ok _ _ _ _ _ _ E).
  apply bind_Raise. unfold lift. f_equal.
  rewrite vadd_mismatch; rewrite ?length_sdiv, ?length_smul; congruence.
Qed.

(** X2.  Whatever [f] does, a step prints nothing, keeps the calls made
    before it, and calls [f] at least once and at most four times; a step
    that returns a state has called [f] exactly four times. *)
Theorem step_calls_between_one_and_four (f : dynamics T) (dt0 dt : T)
    (state control : vec T) (w : world T) :
  exists cs : list (call T),
    fst (discretize_dynamics_rk4 f dt0 state control dt w) = log_calls w cs
    /\ 1 <= length cs <= 4
    /\ (forall y, snd (discretize_dynamics_rk4 f dt0 state control dt w) = Ok y ->
                  length cs = 4).
Proof.
  unfold discretize_dynamics_rk4, bind, invoke, lift.
  repeat match goal with
         | |- context [match ?r with Ok _ => _ | Raise _ => _ end] =>
             destruct r eqn:?
         end;
    cbn [fst snd]; rewrite ?log_calls_app; cbn [app];
    eexists; (split; [reflexivity|]); cbn [length];
    (split; [lia|]); intros y Hy; try discriminate; reflexivity.
Qed.

End StepShape.

Open Scope R_scope.

(** *** The properties with hypotheses, at concrete inputs *)

Lemma derivative_shape_mismatch_raises_witness :
  discretize_dynamics_rk4 (fun _ _ => Ok [1; 2]) 0.001
    [0; 0; 0.15; -0.15] [0.5; 0.5] 0.001 empty_world
  = (log_calls empty_world [mk_call [0; 0; 0.15; -0.15] [0.5; 0.5]],
     Raise (BroadcastError 4 2)).
Proof.
  apply (derivative_shape_mismatch_raises (T := R) (fun _ _ => Ok [1; 2])
           0.001 0.001 [0; 0; 0.15; -0.15] [0.5; 0.5] [1; 2] empty_world);
    [reflexivity | discriminate | discriminate | discriminate].
Defined.

Close Scope R_scope.


(** X11.  In binary64 the scaling of the momenta is not unconditional.
    With [T1] the smallest positive double, [dt = 1] and both paths at rest
    at the origin (matched initial conditions), [T1/Ix] underflows to zero:
    one Newtonian step leaves the rate at [0], one Hamiltonian step gives
    the momentum [T1], which is not [Ix * 0]. *)
Theorem binary64_scaling_breaks_on_underflow :
  let tiny := PrimFloat.next_up 0%float in
  snd (discretize_dynamics_rk4 (T := float) newtonian_dynamics 1%float
         [0; 0; 0; 0]%float [tiny; 0%float] 1%float empty_world)
  = Ok [0; 0; 0; 0]%float
  /\ snd (discretize_dynamics_rk4 (T := float) hamiltonian_dynamics 1%float
            [0; 0; PrimFloat.mul 0 2; PrimFloat.mul 0 2]%float
            [tiny; 0%float] 1%float empty_world)
     = Ok [0%float; 0%float; tiny; 0%float]
  /\ PrimFloat.ltb 0%float tiny = true
  /\ PrimFloat.eqb tiny (PrimFloat.mul 2 0)%float = false.
Proof. vm_compute. repeat split. Qed.
